(** * Article generation pipeline: a shallow embedding of the trigger route

    The development follows the route handler that reads [posts.json],
    formats each unprocessed post, asks the generation service for an
    article and appends the results to [articles.json].

    - JavaScript values are modelled along the TypeScript interfaces of the
      route: optional fields are [option]s, arrays are [list]s.
    - The file system, the generation service and the clock are explicit:
      the handler is a function from a request and a [State] to a response
      and a [State], written in a small state-and-exception monad.
    - [new Set(...)] is a [gset string]. *)

From Stdlib Require Import ZArith Lia Ascii.
From stdpp Require Import base list strings gmap pretty.

Local Open Scope string_scope.
Local Open Scope list_scope.
Local Open Scope Z_scope.

(** ** JavaScript primitives used by the route *)

Module JS.

(** The number held by [numPosts]: [parseInt] yields an integer or [NaN].
    (An overlong digit string is rounded to a double by JavaScript; every
    use below clamps the number against an array length, which that
    rounding cannot change.) *)
Inductive number :=
| NaN
| Num (z : Z).

#[global] Instance number_eq_dec : EqDecision number.
Proof. solve_decision. Defined.

(** Truthiness of an optional string: [undefined] and [''] are falsy. *)
Definition truthy (v : option string) : bool :=
  match v with
  | Some (String _ _) => true
  | _ => false
  end.

(** [v || d] on an optional string. *)
Definition or_else (v : option string) (d : string) : string :=
  match v with
  | Some (String _ _ as s) => s
  | _ => d
  end.

(** A destructuring default [{ f = d }]: used only when [f] is [undefined]. *)
Definition default_to (v : option string) (d : string) : string :=
  match v with
  | Some s => s
  | None => d
  end.

(** [ToIntegerOrInfinity] on the numbers above. *)
Definition toInteger (n : number) : Z :=
  match n with
  | NaN => 0
  | Num z => z
  end.

(** [Array.prototype.slice(0, e)]: a negative end counts from the back. *)
Definition slice_end (len : nat) (e : number) : nat :=
  let r := toInteger e in
  if r <? 0 then Z.to_nat (Z.max (Z.of_nat len + r) 0)
  else Z.to_nat (Z.min r (Z.of_nat len)).

Definition slice0 {A} (l : list A) (e : number) : list A :=
  take (slice_end (length l) e) l.

(** [parseInt(s, 10)]: leading white space, an optional sign, then the
    longest run of decimal digits; [NaN] when that run is empty. *)
Definition is_white (c : ascii) : bool :=
  let n := nat_of_ascii c in
  (n =? 32)%nat || ((9 <=? n)%nat && (n <=? 13)%nat).

Fixpoint skip_white (s : string) : string :=
  match s with
  | String c r => if is_white c then skip_white r else s
  | EmptyString => s
  end.

Definition digit_of (c : ascii) : option Z :=
  let n := nat_of_ascii c in
  if ((48 <=? n)%nat && (n <=? 57)%nat)%bool then Some (Z.of_nat (n - 48)) else None.

Fixpoint digits (s : string) (acc : option Z) : option Z :=
  match s with
  | String c r =>
      match digit_of c with
      | Some d => digits r (Some (10 * default 0 acc + d))
      | None => acc
      end
  | EmptyString => acc
  end.

Definition parseInt (s : string) : number :=
  let s := skip_white s in
  let '(sign, s) :=
    match s with
    | String "-"%char r => (-1, r)
    | String "+"%char r => (1, r)
    | _ => (1, s)
    end in
  match digits s None with
  | Some z => Num (sign * z)
  | None => NaN
  end.

End JS.

(** ** Data model (the route's TypeScript interfaces) *)

Module Reply.
#[warnings="-register-all"]
Inductive t := Build (text : option string) (replies : option (list t)).
Definition text (r : t) : option string := let 'Build x _ := r in x.
Definition replies (r : t) : option (list t) := let 'Build _ x := r in x.
End Reply.

Module Comment.
Record t := Build { text : option string; replies : option (list Reply.t) }.
End Comment.

Module Post.
Record t := Build {
  title : option string;
  author : option string;
  text : option string;
  comments : option (list Comment.t)
}.
End Post.

Module GeneratedArticle.
Record t := Build {
  originalTitle : string;
  originalAuthor : string;
  generatedArticle : string;
  timestamp : string
}.
End GeneratedArticle.

(** ** The post formatter *)

Definition nl : string := String "010"%char EmptyString.

(** The body of the inner [forEach]: one quoted line per reply. *)
Definition replyLine (reply : Reply.t) : string :=
  "> Reply: " +:+ JS.or_else (Reply.text reply) "" +:+ nl +:+ nl.

(** The first statement of the outer [forEach]: the labelled block. *)
Definition commentBlock (comment : Comment.t) : string :=
  "**Comment by " +:+ (if JS.truthy (Comment.text comment) then "user" else "unknown")
  +:+ "**:" +:+ nl +:+ JS.or_else (Comment.text comment) "" +:+ nl +:+ nl.

(** [formattedData += ...] for one comment and its replies. *)
Definition addComment (formattedData : string) (comment : Comment.t) : string :=
  let formattedData := formattedData +:+ commentBlock comment in
  match Comment.replies comment with
  | Some ((_ :: _) as replies) =>
      let topReplies := JS.slice0 replies (JS.Num 2) in
      fold_left (fun acc reply => acc +:+ replyLine reply) topReplies formattedData
  | _ => formattedData
  end.

Definition postHeader (post : Post.t) : string :=
  "# " +:+ JS.default_to (Post.title post) "" +:+ nl +:+ nl
  +:+ "**Posted by " +:+ JS.default_to (Post.author post) "" +:+ "**" +:+ nl +:+ nl
  +:+ JS.default_to (Post.text post) "" +:+ nl +:+ nl.

Definition formatPostData (post : Post.t) : string :=
  let comments := default [] (Post.comments post) in
  let formattedData := postHeader post in
  match comments with
  | _ :: _ =>
      let formattedData := formattedData +:+ "## Top Comments" +:+ nl +:+ nl in
      let topComments := JS.slice0 comments (JS.Num 5) in
      fold_left addComment topComments formattedData
  | [] => formattedData
  end.

(** ** The world the handler runs in *)

(** What [JSON.parse] of [posts.json] returns, by the declared type
    [Post | Post[]]. *)
Inductive PostData :=
| OnePost (post : Post.t)
| PostArray (posts : list Post.t).

(** [postData as Post]: the cast has no run-time effect, and an array read
    through the [Post] interface has none of the four fields. *)
Definition asPost (postData : PostData) : Post.t :=
  match postData with
  | OnePost post => post
  | PostArray _ => Post.Build None None None None
  end.

(** [articles.json]: not there, there but not parseable, or a collection. *)
Inductive ArticlesFile :=
| Absent
| Unreadable
| Stored (articles : list GeneratedArticle.t).

Record State := mkState {
  posts_json : option PostData;   (* [None]: missing, unreadable or not JSON *)
  articles_json : ArticlesFile;
  writable : bool;                (* does [writeFileSync] on articles.json succeed *)
  requests : list string          (* post data sent to the service, oldest first *)
}.

Definition set_articles (articles : list GeneratedArticle.t) (st : State) : State :=
  mkState (posts_json st) (Stored articles) (writable st) (requests st).

Definition log_request (postData : string) (st : State) : State :=
  mkState (posts_json st) (articles_json st) (writable st) (requests st ++ [postData]).

(** ** A state-and-exception monad for the handler *)

Inductive Result (A : Type) :=
| Return (a : A)
| Throw (message : string).
Arguments Return {A} a.
Arguments Throw {A} message.

Definition M (A : Type) : Type := State → Result A * State.

#[global] Instance M_ret : MRet M := λ A a st, (Return a, st).

#[global] Instance M_bind : MBind M := λ A B k m st,
  match m st with
  | (Return a, st') => k a st'
  | (Throw e, st') => (Throw e, st')
  end.

(** [try { m } catch (error) { h error }] *)
Definition catch {A} (m : M A) (h : string → M A) : M A := λ st,
  match m st with
  | (Return a, st') => (Return a, st')
  | (Throw e, st') => h e st'
  end.

(** ** File access *)

Definition readPostsFile : M PostData := λ st,
  match posts_json st with
  | Some postData => (Return postData, st)
  | None => (Throw "Failed to read posts file", st)
  end.

Definition writeArticlesFile (articles : list GeneratedArticle.t) : M unit := λ st,
  if writable st then (Return tt, set_articles articles st)
  else (Throw "Failed to write articles file", st).

Definition existsSync : M bool := λ st,
  (Return (if articles_json st is Absent then false else true), st).

(** [JSON.parse(fs.readFileSync(articlesFilePath))] *)
Definition readArticles : M (list GeneratedArticle.t) := λ st,
  match articles_json st with
  | Stored articles => (Return articles, st)
  | _ => (Throw "Unexpected token in JSON", st)
  end.

(** ** The trigger route *)

Record Request := mkRequest {
  numPostsParam : option string;   (* [url.searchParams.get('numPosts')] *)
  forceParam : option string       (* [url.searchParams.get('force')] *)
}.

Inductive Body :=
| Success (message : string) (articles : list GeneratedArticle.t)
| Failure (error : string).

Record Response := mkResponse { status : nat; body : Body }.

Definition noNewPosts : string :=
  "No new posts to process. All posts have already been generated into articles.".

Definition resolvedTitle (post : Post.t) : string :=
  JS.or_else (Post.title post) "Untitled Post".

Definition resolvedAuthor (post : Post.t) : string :=
  JS.or_else (Post.author post) "Unknown Author".

(** The shape test on the loaded document. *)
Definition resolvePosts (postData : PostData) : list Post.t :=
  if JS.truthy (Post.title (asPost postData)) then [asPost postData]
  else if JS.truthy (Post.text (asPost postData)) then [asPost postData]
  else match postData with
       | PostArray posts => posts
       | OnePost _ => [asPost postData]
       end.

Definition processedTitles (existingArticles : list GeneratedArticle.t) : gset string :=
  list_to_set (GeneratedArticle.originalTitle <$> existingArticles).

Definition unprocessedPosts (posts : list Post.t)
    (existingArticles : list GeneratedArticle.t) : list Post.t :=
  filter (λ post, resolvedTitle post ∉ processedTitles existingArticles) posts.

Definition numPostsOf (request : Request) : JS.number :=
  JS.parseInt (JS.or_else (numPostsParam request) "3").

Definition forceOf (request : Request) : bool :=
  bool_decide (forceParam request = Some "true").

(** The inner [try]: an absent file or [force] leaves the list empty, and a
    failing read is only warned about. *)
Definition loadExisting (forceRegenerate : bool) : M (list GeneratedArticle.t) :=
  catch
    (present ← existsSync;
     if present && negb forceRegenerate then readArticles else mret [])
    (λ _, mret []).

Section Route.

(** The generation service: the answer to the [n]-th call ever made, given
    the post data sent; [None] is a transport or API error. *)
Variable completion : nat → string → option string.

(** [new Date().toISOString()], read after [n] calls to the service. *)
Variable clock : nat → string.

Definition generateArticle (postData : string) : M string := λ st,
  match completion (length (requests st)) postData with
  | Some content => (Return content, log_request postData st)
  | None => (Throw "Failed to generate article", log_request postData st)
  end.

Definition now : M string := λ st, (Return (clock (length (requests st))), st).

(** The [for ... of] loop, [newArticles] being the array pushed to. *)
Fixpoint generateAll (postsToProcess : list Post.t)
    (newArticles : list GeneratedArticle.t) : M (list GeneratedArticle.t) :=
  match postsToProcess with
  | [] => mret newArticles
  | post :: rest =>
      article ← generateArticle (formatPostData post);
      timestamp ← now;
      generateAll rest
        (newArticles ++
           [GeneratedArticle.Build (resolvedTitle post) (resolvedAuthor post)
              article timestamp])
  end.

Definition generatedMessage (new total : nat) : string :=
  "Generated " +:+ pretty new +:+ " new articles. Total: " +:+ pretty total.

(** The body of the outer [try]. *)
Definition handle (request : Request) : M Response :=
  let numPosts := numPostsOf request in
  let forceRegenerate := forceOf request in
  postData ← readPostsFile;
  let posts := resolvePosts postData in
  existingArticles ← loadExisting forceRegenerate;
  let postsToProcess := JS.slice0 (unprocessedPosts posts existingArticles) numPosts in
  if bool_decide (length postsToProcess = 0%nat) then
    mret (mkResponse 200 (Success noNewPosts existingArticles))
  else
    newArticles ← generateAll postsToProcess [];
    let allArticles := existingArticles ++ newArticles in
    _ ← writeArticlesFile allArticles;
    mret (mkResponse 200
            (Success (generatedMessage (length newArticles) (length allArticles))
               allArticles)).

(** The route: whatever is thrown becomes a 500 response. *)
Definition GET (request : Request) (st : State) : Response * State :=
  match handle request st with
  | (Return response, st') => (response, st')
  | (Throw message, st') =>
      (mkResponse 500 (Failure (JS.or_else (Some message) "Failed to process posts")), st')
  end.

End Route.

(** ** Concrete inputs *)

Definition titled (title : string) : Post.t :=
  Post.Build (Some title) (Some "ann") (Some "body") None.

Definition untitled : Post.t := Post.Build None None (Some "body") None.

Definition echo (n : nat) (postData : string) : option string := Some ("article " +:+ pretty n).
Definition failing_at (k : nat) (n : nat) (postData : string) : option string :=
  if bool_decide (n = k) then None else Some ("article " +:+ pretty n).
Definition tick (n : nat) : string := "t" +:+ pretty n.

Definition disk (postData : PostData) (file : ArticlesFile) : State :=
  mkState (Some postData) file true [].

Definition plain (numPosts : option string) : Request := mkRequest numPosts None.
Definition forced (numPosts : option string) : Request := mkRequest numPosts (Some "true").

(** An article already in the file. *)
Definition kept : GeneratedArticle.t := GeneratedArticle.Build "A" "ann" "old text" "t0".



(** ** A run of the route as a function of the initial state *)

(** The value of [existingArticles] after the inner [try]. *)
Definition existingOf (forceRegenerate : bool) (st : State) : list GeneratedArticle.t :=
  if forceRegenerate then []
  else if articles_json st is Stored articles then articles else [].

(** The value of [postsToProcess]. *)
Definition selected (request : Request) (st : State) (postData : PostData) : list Post.t :=
  JS.slice0
    (unprocessedPosts (resolvePosts postData) (existingOf (forceOf request) st))
    (numPostsOf request).

(** The state after [sent] went to the generation service. *)
Definition logged (sent : list string) (st : State) : State :=
  mkState (posts_json st) (articles_json st) (writable st) (requests st ++ sent).

Section Runs.

Variable completion : nat → string → option string.
Variable clock : nat → string.

(** The articles pushed by the loop, up to the first failing call, when the
    service has been called [n] times before. *)
Fixpoint produced (n : nat) (posts : list Post.t) : list GeneratedArticle.t :=
  match posts with
  | [] => []
  | post :: rest =>
      match completion n (formatPostData post) with
      | Some article =>
          GeneratedArticle.Build (resolvedTitle post) (resolvedAuthor post)
            article (clock (S n)) :: produced (S n) rest
      | None => []
      end
  end.

(** The position of the first post whose call fails, if any. *)
Fixpoint first_failure (n : nat) (posts : list Post.t) : option nat :=
  match posts with
  | [] => None
  | post :: rest =>
      match completion n (formatPostData post) with
      | Some _ => S <$> first_failure (S n) rest
      | None => Some 0%nat
      end
  end.

(** Every call of a run over [posts] is answered. *)
Definition all_answered (n : nat) (posts : list Post.t) : Prop :=
  ∀ i post, posts !! i = Some post →
    is_Some (completion (n + i) (formatPostData post)).

End Runs.

(** ** The formatter's output as a list of entries *)

Definition commentsOf (post : Post.t) : list Comment.t := default [] (Post.comments post).

Definition repliesOf (comment : Comment.t) : list Reply.t :=
  default [] (Comment.replies comment).

(** One rendered comment: its labelled block and its quoted reply lines. *)
Definition entryOf (comment : Comment.t) : string * list string :=
  (commentBlock comment, replyLine <$> take 2 (repliesOf comment)).

Definition entries (post : Post.t) : list (string * list string) :=
  entryOf <$> take 5 (commentsOf post).







(** ** The loader's resolution policy, in the words of the specification *)





(** ** Three statements about the route, as they are worded

    Each is stated for one request and one initial state, so that it can be
    asked of any concrete run. *)

Section Statements.

Variable completion : nat → string → option string.
Variable clock : nat → string.

(** "Take the first [numPosts] of the filtered sequence (fewer if not enough
    remain; zero if none remain)." *)
Definition firstNumPosts (request : Request) (st : State) (postData : PostData) : list Post.t :=
  take (Z.to_nat (JS.toInteger (numPostsOf request)))
    (unprocessedPosts (resolvePosts postData) (existingOf false st)).

Definition recorded (post : Post.t) (article : GeneratedArticle.t) : Prop :=
  GeneratedArticle.originalTitle article = resolvedTitle post
  ∧ GeneratedArticle.originalAuthor article = resolvedAuthor post.

(** A request without [force] that processes at least one post selects the
    first [numPosts] unprocessed posts and persists the existing collection
    followed by their articles, in that order. *)
Definition appends_first_numPosts (request : Request) (st : State) : Prop :=
  ∀ postData message articles st',
    posts_json st = Some postData →
    forceOf request = false →
    GET completion clock request st = (mkResponse 200 (Success message articles), st') →
    requests st' ≠ requests st →
    let existingArticles := existingOf false st in
    let chosen := firstNumPosts request st postData in
    selected request st postData = chosen
    ∧ requests st' = requests st ++ (formatPostData <$> chosen)
    ∧ ∃ newArticles,
        articles_json st' = Stored (existingArticles ++ newArticles)
        ∧ articles = existingArticles ++ newArticles
        ∧ Forall2 recorded chosen newArticles.

(** Two calls in a row with the same [numPosts] and the same input: the
    second reports nothing new and returns the first call's collection. *)
Definition second_call_repeats (request : Request) (st : State) : Prop :=
  ∀ response1 st1 response2 st2 message1 articles1,
    GET completion clock request st = (response1, st1) →
    body response1 = Success message1 articles1 →
    GET completion clock request st1 = (response2, st2) →
    response2 = mkResponse 200 (Success noNewPosts articles1) ∧ st2 = st1.

(** Zero posts selected, which is to include a [numPosts] that is [NaN],
    zero or negative: a success response, no call, no write. *)
Definition returns_without_generating (request : Request) (st : State) : Prop :=
  ∀ postData,
    posts_json st = Some postData →
    (selected request st postData = []
     ∨ numPostsOf request = JS.NaN
     ∨ ∃ z, numPostsOf request = JS.Num z ∧ z ≤ 0) →
    GET completion clock request st
    = (mkResponse 200 (Success noNewPosts (existingOf (forceOf request) st)), st).

End Statements.

Definition titlesOf (articles : list GeneratedArticle.t) : list string :=
  GeneratedArticle.originalTitle <$> articles.

Definition entriesTitled (X : string) (articles : list GeneratedArticle.t) : nat :=
  length (filter (λ article, GeneratedArticle.originalTitle article = X) articles).

(** ** The list route ([/api/articles]) *)

Module ArticlesRoute.

Inductive Body :=
| Listing (articles : list GeneratedArticle.t)
| Error (error : string).

Record Response := mkResponse { status : nat; body : Body }.

(** The body of the [try]. *)
Definition handle : M Response :=
  present ← existsSync;
  if negb present then mret (mkResponse 404 (Listing []))
  else
    articles ← readArticles;
    mret (mkResponse 200 (Listing articles)).

Definition GET (st : State) : Response * State :=
  match handle st with
  | (Return response, st') => (response, st')
  | (Throw message, st') =>
      (mkResponse 500 (Error (JS.or_else (Some message) "Failed to read articles file")), st')
  end.

End ArticlesRoute.

(** ** String methods used by the page *)

Module JSString.

(** The line terminators of a regular expression, among the ASCII
    characters: line feed and carriage return. *)
Definition isLineTerminator (c : ascii) : bool :=
  let n := nat_of_ascii c in
  (n =? 10)%nat || (n =? 13)%nat.

Definition isEmpty (s : string) : bool :=
  match s with
  | EmptyString => true
  | String _ _ => false
  end.

(** [trimEnd] and [trim]: white space and line terminators go. *)
Fixpoint trimEnd (s : string) : string :=
  match s with
  | String c r =>
      let r' := trimEnd r in
      if JS.is_white c && isEmpty r' then "" else String c r'
  | EmptyString => ""
  end.

Definition trim (s : string) : string := trimEnd (JS.skip_white s).

End JSString.

(** ** The page component ([ArticleGenerator]) *)

Module ArticleGenerator.

Record TitleContent := mkTitleContent { title : string; content : string }.

(** [(.+)$] from the current position: the characters before the next line
    terminator, and what is left. *)
Fixpoint restOfLine (s : string) : string * string :=
  match s with
  | String c r =>
      if JSString.isLineTerminator c then ("", s)
      else let '(line, after) := restOfLine r in (String c line, after)
  | EmptyString => ("", "")
  end.

(** [/^# (.+)$/m] tried at a position where [^] holds: the capture and what
    follows the match. *)
Definition headingAt (s : string) : option (string * string) :=
  match s with
  | String "#"%char (String " "%char r) =>
      match restOfLine r with
      | (String c line, after) => Some (String c line, after)
      | (EmptyString, _) => None
      end
  | _ => None
  end.

(** The first match of [/^# (.+)$/m], scanning from the left: what precedes
    the match, the capture, what follows.  [lineStart] tells whether [^]
    holds at the current position. *)
Fixpoint firstHeading (lineStart : bool) (s : string) : option (string * string * string) :=
  match (if lineStart then headingAt s else None) with
  | Some (captured, after) => Some ("", captured, after)
  | None =>
      match s with
      | String c r =>
          (λ '(before, captured, after), (String c before, captured, after))
            <$> firstHeading (JSString.isLineTerminator c) r
      | EmptyString => None
      end
  end.

Definition extractTitle (markdown : string) : TitleContent :=
  match firstHeading true markdown with
  | Some (before, captured, after) =>
      if JS.truthy (Some captured) then
        mkTitleContent captured (JSString.trim (before +:+ after))
      else mkTitleContent "Generated Article" markdown
  | None => mkTitleContent "Generated Article" markdown
  end.

End ArticleGenerator.

(** ** Lines of a Markdown text *)

(** No line terminator occurs in [s]. *)
Fixpoint singleLine (s : string) : bool :=
  match s with
  | String c r => negb (JSString.isLineTerminator c) && singleLine r
  | EmptyString => true
  end.

(** [$] holds where [s] begins: the text ends or a line terminator comes. *)
Definition atLineEnd (s : string) : bool :=
  match s with
  | String c _ => JSString.isLineTerminator c
  | EmptyString => true
  end.

(** [^] holds right after [before], [start] telling whether it holds where
    [before] begins. *)
Fixpoint lineStartAfter (start : bool) (before : string) : bool :=
  match before with
  | String c r => lineStartAfter (JSString.isLineTerminator c) r
  | EmptyString => start
  end.

(** [before ++ "# " ++ captured ++ after] shows a level-one heading line
    with a non-empty text between [before] and [after]. *)
Definition headingBetween (start : bool) (before captured after : string) : Prop :=
  lineStartAfter start before = true
  ∧ captured ≠ ""
  ∧ singleLine captured = true
  ∧ atLineEnd after = true.

(** ** Lemmas on the JavaScript primitives *)

Lemma slice0_nonneg {A} (l : list A) (z : Z) :
  0 ≤ z → JS.slice0 l (JS.Num z) = take (Z.to_nat z) l.
Proof.
  intros Hz. unfold JS.slice0, JS.slice_end. simpl.
  destruct (Z.ltb_spec z 0) as [?|_]; [lia|].
  destruct (Z.le_gt_cases z (Z.of_nat (length l))) as [Hle|Hgt].
  - by rewrite Z.min_l.
  - rewrite Z.min_r, Nat2Z.id by lia.
    rewrite !take_ge; [done|lia..].
Qed.

Lemma slice0_NaN {A} (l : list A) : JS.slice0 l JS.NaN = [].
Proof.
  unfold JS.slice0, JS.slice_end. simpl.
  replace (Z.to_nat (Z.min 0 (Z.of_nat (length l)))) with 0%nat by lia. done.
Qed.

Lemma slice0_neg {A} (l : list A) (z : Z) :
  z < 0 → JS.slice0 l (JS.Num z) = take (length l - Z.to_nat (- z)) l.
Proof.
  intros Hz. unfold JS.slice0, JS.slice_end. simpl.
  destruct (Z.ltb_spec z 0) as [_|?]; [|lia]. f_equal. lia.
Qed.

Lemma slice0_subseteq {A} (l : list A) (e : JS.number) : JS.slice0 l e ⊆ l.
Proof. apply subseteq_take. Qed.

(** ** The run lemmas: what each part of the handler computes *)

Lemma logged_nil st : logged [] st = st.
Proof. destruct st. unfold logged. simpl. by rewrite app_nil_r. Qed.

Lemma logged_logged a b st : logged b (logged a st) = logged (a ++ b) st.
Proof. unfold logged. simpl. by rewrite app_assoc. Qed.

Lemma log_request_logged x st : log_request x st = logged [x] st.
Proof. done. Qed.

Lemma loadExisting_run forceRegenerate st :
  loadExisting forceRegenerate st = (Return (existingOf forceRegenerate st), st).
Proof.
  destruct st as [? [| |articles] ? ?], forceRegenerate; reflexivity.
Qed.

Section RunLemmas.

Variable completion : nat → string → option string.
Variable clock : nat → string.

Lemma generateAll_run posts : ∀ newArticles st,
  generateAll completion clock posts newArticles st =
    match first_failure completion (length (requests st)) posts with
    | None =>
        (Return (newArticles ++ produced completion clock (length (requests st)) posts),
         logged (formatPostData <$> posts) st)
    | Some k =>
        (Throw "Failed to generate article",
         logged (formatPostData <$> take (S k) posts) st)
    end.
Proof.
  induction posts as [|post rest IH]; intros newArticles st.
  - simpl. by rewrite app_nil_r, logged_nil.
  - simpl. unfold mbind, M_bind, generateArticle at 1.
    destruct (completion (length (requests st)) (formatPostData post)) as [article|] eqn:Hc.
    + unfold now at 1. rewrite IH. rewrite log_request_logged.
      replace (length (requests (logged [formatPostData post] st)))
        with (S (length (requests st))) by (simpl; rewrite length_app; simpl; lia).
      destruct (first_failure completion (S (length (requests st))) rest); simpl.
      * by rewrite logged_logged.
      * by rewrite logged_logged, <- app_assoc.
    + by rewrite take_0.
Qed.

Lemma first_failure_None n posts :
  first_failure completion n posts = None ↔ all_answered completion n posts.
Proof.
  revert n. induction posts as [|post rest IH]; intros n; simpl.
  - split; [|done]. intros _ i post Hi. by destruct i.
  - destruct (completion n (formatPostData post)) eqn:Hc.
    + rewrite fmap_None, IH. split.
      * intros H [|i] p Hi; simpl in Hi.
        -- injection Hi as <-. rewrite Nat.add_0_r, Hc. eauto.
        -- replace (n + S i)%nat with (S n + i)%nat by lia. eauto.
      * intros H i p Hi. replace (S n + i)%nat with (n + S i)%nat by lia.
        by apply H.
    + split; [done|]. intros H. specialize (H 0%nat post eq_refl).
      rewrite Nat.add_0_r, Hc in H. by destruct H.
Qed.

Lemma first_failure_Some n posts k :
  first_failure completion n posts = Some k →
  ∃ post, posts !! k = Some post
          ∧ completion (n + k) (formatPostData post) = None
          ∧ all_answered completion n (take k posts).
Proof.
  revert n k. induction posts as [|post rest IH]; intros n k; simpl; [done|].
  destruct (completion n (formatPostData post)) eqn:Hc.
  - rewrite fmap_Some. intros (k' & Hk' & ->).
    destruct (IH _ _ Hk') as (p & Hp & Hfail & Hpre).
    exists p. split; [done|]. split.
    + by replace (n + S k')%nat with (S n + k')%nat by lia.
    + intros [|i] q Hi; simpl in Hi.
      * injection Hi as <-. rewrite Nat.add_0_r, Hc. eauto.
      * replace (n + S i)%nat with (S n + i)%nat by lia. eauto.
  - intros [= <-]. exists post. rewrite Nat.add_0_r. split; [done|]. split; [done|].
    intros i q Hi. by destruct i.
Qed.

(** A failing call at position [i] puts the first failure at or before [i]. *)
Lemma first_failure_le n posts i post :
  posts !! i = Some post →
  completion (n + i) (formatPostData post) = None →
  ∃ k, first_failure completion n posts = Some k ∧ (k ≤ i)%nat.
Proof.
  intros Hi Hc.
  destruct (first_failure completion n posts) as [k|] eqn:Hf.
  - exists k. split; [done|].
    destruct (first_failure_Some _ _ _ Hf) as (p & Hp & _ & Hpre).
    destruct (decide (k ≤ i)%nat) as [|Hgt]; [done|].
    assert (take k posts !! i = Some post) as Hti
      by (rewrite lookup_take_lt by lia; done).
    apply Hpre in Hti. rewrite Hc in Hti. by destruct Hti.
  - apply first_failure_None in Hf. apply Hf in Hi. rewrite Hc in Hi. by destruct Hi.
Qed.

Lemma produced_titles n posts :
  all_answered completion n posts →
  GeneratedArticle.originalTitle <$> produced completion clock n posts
  = resolvedTitle <$> posts.
Proof.
  revert n. induction posts as [|post rest IH]; intros n Hall; [done|].
  simpl. destruct (Hall 0%nat post eq_refl) as [article Ha].
  rewrite Nat.add_0_r in Ha. rewrite Ha. simpl. f_equal. apply IH.
  intros i p Hi. replace (S n + i)%nat with (n + S i)%nat by lia. by apply Hall.
Qed.

Lemma produced_Forall2 n posts :
  all_answered completion n posts →
  Forall2 (λ post article,
      GeneratedArticle.originalTitle article = resolvedTitle post
      ∧ GeneratedArticle.originalAuthor article = resolvedAuthor post)
    posts (produced completion clock n posts).
Proof.
  revert n. induction posts as [|post rest IH]; intros n Hall; simpl; [constructor|].
  destruct (Hall 0%nat post eq_refl) as [article Ha].
  rewrite Nat.add_0_r in Ha. rewrite Ha. constructor; [done|]. apply IH.
  intros i p Hi. replace (S n + i)%nat with (n + S i)%nat by lia. by apply Hall.
Qed.

(** The whole route in one equation. *)
Lemma GET_run request st :
  GET completion clock request st =
    match posts_json st with
    | None => (mkResponse 500 (Failure "Failed to read posts file"), st)
    | Some postData =>
        let existingArticles := existingOf (forceOf request) st in
        let postsToProcess := selected request st postData in
        let sent := formatPostData <$> postsToProcess in
        if bool_decide (postsToProcess = []) then
          (mkResponse 200 (Success noNewPosts existingArticles), st)
        else
          match first_failure completion (length (requests st)) postsToProcess with
          | Some k =>
              (mkResponse 500 (Failure "Failed to generate article"),
               logged (take (S k) sent) st)
          | None =>
              let newArticles :=
                produced completion clock (length (requests st)) postsToProcess in
              let allArticles := existingArticles ++ newArticles in
              if writable st then
                (mkResponse 200
                   (Success (generatedMessage (length newArticles) (length allArticles))
                      allArticles),
                 set_articles allArticles (logged sent st))
              else
                (mkResponse 500 (Failure "Failed to write articles file"),
                 logged sent st)
          end
    end.
Proof.
  unfold GET, handle, mbind, M_bind, readPostsFile.
  destruct (posts_json st) as [postData|] eqn:Hp; [|done].
  rewrite loadExisting_run. fold (selected request st postData).
  destruct (selected request st postData) as [|post rest] eqn:Hs; [done|].
  rewrite bool_decide_eq_false_2 by done.
  rewrite bool_decide_eq_false_2 by done.
  rewrite generateAll_run.
  destruct (first_failure completion (length (requests st)) (post :: rest)) as [k|].
  - simpl. by rewrite fmap_take.
  - unfold writeArticlesFile. simpl writable.
    destruct (writable st); done.
Qed.

End RunLemmas.

(** ** The formatter *)










(** The bounding example of the specification: ten comments with five
    replies each give exactly five entries of two reply lines each. *)
Corollary formatPostData_ten_by_five (post : Post.t) :
  length (commentsOf post) = 10%nat →
  Forall (λ comment, length (repliesOf comment) = 5%nat) (commentsOf post) →
  length (entries post) = 5%nat ∧ Forall (λ entry, length entry.2 = 2%nat) (entries post).
Proof.
  intros Hlen Hall. split.
  - unfold entries. rewrite length_fmap, length_take. lia.
  - unfold entries. apply Forall_fmap. apply Forall_take.
    eapply Forall_impl; [exact Hall|]. intros c Hc. simpl in *.
    rewrite length_fmap, length_take, Hc. done.
Qed.

(** ** The loader *)


(** ** The selection of posts *)

Lemma elem_of_processedTitles X existingArticles :
  (X ∈ processedTitles existingArticles) ↔ (X ∈ titlesOf existingArticles).
Proof. unfold processedTitles, titlesOf. apply elem_of_list_to_set. Qed.

Lemma elem_of_unprocessedPosts post posts existingArticles :
  (post ∈ unprocessedPosts posts existingArticles)
  ↔ (resolvedTitle post ∉ titlesOf existingArticles) ∧ (post ∈ posts).
Proof.
  unfold unprocessedPosts. by rewrite list_elem_of_filter, elem_of_processedTitles.
Qed.

Lemma elem_of_selected post request st postData :
  post ∈ selected request st postData →
  (resolvedTitle post ∉ titlesOf (existingOf (forceOf request) st))
  ∧ (post ∈ resolvePosts postData).
Proof.
  intros Hin. apply elem_of_unprocessedPosts.
  by eapply slice0_subseteq.
Qed.

Lemma unprocessedPosts_nil posts existingArticles :
  (∀ post, post ∈ posts → resolvedTitle post ∈ titlesOf existingArticles) →
  unprocessedPosts posts existingArticles = [].
Proof.
  intros Hall. unfold unprocessedPosts.
  induction posts as [|post posts IH]; [done|].
  rewrite filter_cons, decide_False.
  - apply IH. intros p Hp. apply Hall. by right.
  - rewrite elem_of_processedTitles. intros Hnot. apply Hnot, Hall. left.
Qed.

Lemma existingOf_Stored st existingArticles :
  articles_json st = Stored existingArticles → existingOf false st = existingArticles.
Proof. unfold existingOf. by intros ->. Qed.

Lemma entriesTitled_app X l k :
  entriesTitled X (l ++ k) = (entriesTitled X l + entriesTitled X k)%nat.
Proof. unfold entriesTitled. by rewrite filter_app, length_app. Qed.

Lemma entriesTitled_none X l :
  X ∉ titlesOf l → entriesTitled X l = 0%nat.
Proof.
  intros HX. unfold entriesTitled.
  induction l as [|a l IH]; [done|].
  rewrite filter_cons. destruct (decide _) as [Ha|Ha].
  - exfalso. apply HX. unfold titlesOf. rewrite fmap_cons, <- Ha. left.
  - apply IH. intros Hin. apply HX. unfold titlesOf. rewrite fmap_cons. by right.
Qed.

(** ** The claims about the route *)

(** Nothing is a member of the empty list. *)
Ltac none_in_nil := let Hin := fresh "Hin" in intros ? Hin; by apply elem_of_nil in Hin.

Section Claims.

Variable completion : nat → string → option string.
Variable clock : nat → string.

(** C1. Without [force], over a persisted collection that has an entry
    titled [X]: whatever the request and the input, the file afterwards is
    the old collection followed by new articles none of which is titled
    [X], so the number of entries titled [X] is what it was; every post that
    went to the generation service has another resolved title; and a loaded
    post whose resolved title is [X] is neither unprocessed nor selected. *)
Theorem dedup_by_title request st existingArticles X :
  articles_json st = Stored existingArticles →
  forceOf request = false →
  X ∈ titlesOf existingArticles →
  let st' := (GET completion clock request st).2 in
  ∃ newArticles processed,
    articles_json st' = Stored (existingArticles ++ newArticles)
    ∧ entriesTitled X (existingArticles ++ newArticles) = entriesTitled X existingArticles
    ∧ (∀ article, article ∈ newArticles → GeneratedArticle.originalTitle article ≠ X)
    ∧ requests st' = requests st ++ (formatPostData <$> processed)
    ∧ processed ⊆ from_option (selected request st) [] (posts_json st)
    ∧ (∀ post, post ∈ processed → resolvedTitle post ≠ X)
    ∧ (∀ postData post,
         posts_json st = Some postData →
         post ∈ resolvePosts postData → resolvedTitle post = X →
         (post ∉ unprocessedPosts (resolvePosts postData) existingArticles)
         ∧ (post ∉ selected request st postData)).
Proof.
  intros Hfile Hforce HX st'.
  assert (Hsel : ∀ postData post,
             post ∈ selected request st postData → resolvedTitle post ≠ X).
  { intros postData post Hin Heq. apply elem_of_selected in Hin as [Hnot _].
    rewrite Hforce, (existingOf_Stored _ _ Hfile), Heq in Hnot. done. }
  assert (Hlast : ∀ postData post,
             posts_json st = Some postData →
             post ∈ resolvePosts postData → resolvedTitle post = X →
             (post ∉ unprocessedPosts (resolvePosts postData) existingArticles)
             ∧ (post ∉ selected request st postData)).
  { intros postData post _ _ Ht. split.
    - intros Hin. apply elem_of_unprocessedPosts in Hin as [Hnot _].
      by rewrite Ht in Hnot.
    - intros Hin. by apply (Hsel _ _ Hin). }
  assert (Hkeep : ∀ newArticles,
             (∀ article, article ∈ newArticles → GeneratedArticle.originalTitle article ≠ X) →
             entriesTitled X (existingArticles ++ newArticles)
             = entriesTitled X existingArticles).
  { intros newArticles Hnew. rewrite entriesTitled_app, (entriesTitled_none X newArticles); [lia|].
    unfold titlesOf. rewrite list_elem_of_fmap. intros (a & -> & Ha). by apply (Hnew a). }
  subst st'. rewrite GET_run.
  destruct (posts_json st) as [postData|] eqn:Hposts.
  2:{ exists [], []. rewrite app_nil_r. simpl. rewrite app_nil_r.
      repeat split; try done; try none_in_nil. }
  cbv zeta. case_bool_decide as Hnil.
  { exists [], []. rewrite app_nil_r. simpl. rewrite app_nil_r.
    repeat split; try (by apply Hlast); try done;
      try none_in_nil. }
  destruct (first_failure completion (length (requests st)) (selected request st postData))
    as [k|] eqn:Hfail.
  { exists [], (take (S k) (selected request st postData)).
    rewrite app_nil_r. simpl. rewrite fmap_take.
    repeat split; try (by apply Hlast); try done.
    - none_in_nil.
    - apply subseteq_take.
    - intros post Hin. apply (Hsel postData). by eapply subseteq_take. }
  apply first_failure_None in Hfail.
  pose proof (produced_titles completion clock _ _ Hfail) as Htitles.
  assert (Hnew : ∀ article,
             article ∈ produced completion clock (length (requests st))
                         (selected request st postData) →
             GeneratedArticle.originalTitle article ≠ X).
  { intros article Hin Heq.
    apply (list_elem_of_fmap_2 GeneratedArticle.originalTitle) in Hin.
    rewrite Htitles, Heq in Hin. apply list_elem_of_fmap in Hin as (post & -> & Hpost).
    by apply (Hsel _ _ Hpost). }
  destruct (writable st).
  - eexists _, (selected request st postData). simpl.
    rewrite Hforce, (existingOf_Stored _ _ Hfile).
    repeat split; try (by apply Hlast); try done.
    + by apply Hkeep.
    + apply (Hsel postData).
  - exists [], (selected request st postData). rewrite app_nil_r. simpl.
    repeat split; try (by apply Hlast); try done.
    + none_in_nil.
    + apply (Hsel postData).
Qed.

(** C3. When the call made for some selected post fails, the request stops
    at the first failing call: the posts up to and including that one, and
    no other, went to the service; nothing is written, so the articles file
    is what it was; and the caller gets status 500 with [success: false] and
    the generic message. *)
Theorem generation_failure_aborts request st postData i post :
  posts_json st = Some postData →
  selected request st postData !! i = Some post →
  completion (length (requests st) + i) (formatPostData post) = None →
  ∃ k failed,
    (k ≤ i)%nat
    ∧ selected request st postData !! k = Some failed
    ∧ completion (length (requests st) + k) (formatPostData failed) = None
    ∧ GET completion clock request st
      = (mkResponse 500 (Failure "Failed to generate article"),
         logged (formatPostData <$> take (S k) (selected request st postData)) st)
    ∧ articles_json (GET completion clock request st).2 = articles_json st.
Proof.
  intros Hposts Hi Hnone.
  destruct (first_failure_le completion _ _ _ _ Hi Hnone) as (k & Hk & Hle).
  destruct (first_failure_Some completion _ _ _ Hk) as (failed & Hfailed & Hfails & _).
  assert (Hrun : GET completion clock request st
                 = (mkResponse 500 (Failure "Failed to generate article"),
                    logged (formatPostData <$> take (S k) (selected request st postData)) st)).
  { rewrite GET_run, Hposts. cbv zeta.
    rewrite bool_decide_eq_false_2 by (intros Hnil; by rewrite Hnil in Hi).
    by rewrite Hk, fmap_take. }
  exists k, failed. rewrite Hrun. done.
Qed.

(** C8. In every successful run the response is the loaded collection
    followed by one article per selected post, in order, each recorded with
    the post's resolved title and author: ["Untitled Post"] when the post
    has no title, ["Unknown Author"] when it has no author.  The resolved
    title is the key of the filter: a loaded post is unprocessed exactly
    when its resolved title is not a title of the loaded collection. *)
Theorem missing_field_defaults request st postData message articles st' :
  posts_json st = Some postData →
  GET completion clock request st = (mkResponse 200 (Success message articles), st') →
  let existingArticles := existingOf (forceOf request) st in
  (∃ newArticles,
     articles = existingArticles ++ newArticles
     ∧ Forall2 (λ post article,
           GeneratedArticle.originalTitle article = resolvedTitle post
           ∧ GeneratedArticle.originalAuthor article = resolvedAuthor post
           ∧ (Post.title post = None →
              GeneratedArticle.originalTitle article = "Untitled Post")
           ∧ (Post.author post = None →
              GeneratedArticle.originalAuthor article = "Unknown Author"))
         (selected request st postData) newArticles
     ∧ (selected request st postData ≠ [] → articles_json st' = Stored articles))
  ∧ (∀ post, post ∈ resolvePosts postData →
       (post ∈ unprocessedPosts (resolvePosts postData) existingArticles)
       ↔ (resolvedTitle post ∉ titlesOf existingArticles))
  ∧ (∀ post, Post.title post = None →
       (post ∈ unprocessedPosts (resolvePosts postData) existingArticles)
       ↔ ("Untitled Post" ∉ titlesOf existingArticles) ∧ (post ∈ resolvePosts postData)).
Proof.
  intros Hposts Hrun existingArticles. split; [|split].
  - rewrite GET_run, Hposts in Hrun. cbv zeta in Hrun.
    case_bool_decide as Hnil.
    { injection Hrun as _ <- _. exists []. rewrite app_nil_r, Hnil.
      split; [done|]. split; [constructor|done]. }
    destruct (first_failure completion (length (requests st)) (selected request st postData))
      eqn:Hfail; [done|].
    destruct (writable st); [|done].
    injection Hrun as _ <- <-. eexists. split; [done|]. split; [|done].
    apply first_failure_None in Hfail.
    eapply Forall2_impl; [by apply produced_Forall2|].
    intros post article [Ht Ha]. rewrite Ht, Ha.
    repeat split; unfold resolvedTitle, resolvedAuthor; by intros ->.
  - intros post Hin. rewrite elem_of_unprocessedPosts. tauto.
  - intros post Ht. rewrite elem_of_unprocessedPosts.
    unfold resolvedTitle. by rewrite Ht.
Qed.

(** C9. The filter looks only at the titles loaded before the loop.  When
    the first two loaded posts have the same resolved title, that title is
    not in the loaded collection, [numPosts] is at least 2, every call is
    answered and the file can be written, one request without [force]
    persists two new entries with that same title. *)
Theorem same_title_twice_in_one_request request st postData post1 post2 rest z :
  posts_json st = Some postData →
  resolvePosts postData = post1 :: post2 :: rest →
  forceOf request = false →
  resolvedTitle post1 = resolvedTitle post2 →
  resolvedTitle post1 ∉ titlesOf (existingOf false st) →
  numPostsOf request = JS.Num z → 2 ≤ z →
  (∀ n postData, is_Some (completion n postData)) →
  writable st = true →
  ∃ message article1 article2 more,
    let allArticles := existingOf false st ++ article1 :: article2 :: more in
    GET completion clock request st
      = (mkResponse 200 (Success message allArticles),
         set_articles allArticles
           (logged (formatPostData <$> selected request st postData) st))
    ∧ take 2 (selected request st postData) = [post1; post2]
    ∧ GeneratedArticle.originalTitle article1 = resolvedTitle post1
    ∧ GeneratedArticle.originalTitle article2 = resolvedTitle post1.
Proof.
  intros Hposts Hres Hforce Hsame Hfresh Hnum Hz Hall Hw.
  assert (Hsel : ∃ others, selected request st postData = post1 :: post2 :: others).
  { unfold selected. rewrite Hres, Hforce, Hnum, slice0_nonneg by lia.
    unfold unprocessedPosts. rewrite !filter_cons.
    rewrite !decide_True
      by (rewrite elem_of_processedTitles; by rewrite <- ?Hsame).
    replace (Z.to_nat z) with (S (S (Z.to_nat (z - 2)))) by lia.
    simpl. eauto. }
  destruct Hsel as [others Hsel].
  assert (Hans : all_answered completion (length (requests st)) (selected request st postData))
    by (intros ???; apply Hall).
  rewrite GET_run, Hposts. cbv zeta.
  rewrite bool_decide_eq_false_2 by (by rewrite Hsel).
  apply first_failure_None in Hans. rewrite Hans, Hw, Hforce.
  rewrite Hsel. simpl produced.
  destruct (Hall (length (requests st)) (formatPostData post1)) as [c1 ->].
  destruct (Hall (S (length (requests st))) (formatPostData post2)) as [c2 ->].
  eexists _, _, _, _. split; [reflexivity|]. simpl. by rewrite Hsame.
Qed.

(** C2. With [force=true] the loaded collection is empty whatever the file
    holds, so every loaded post is unprocessed and the selection is a slice
    of all of them, posts already in the file included.  When that slice is
    not empty, every call is answered and the file can be written, each
    selected post is sent to the service and the collection that is returned
    and persisted is the (empty) loaded collection followed by the new
    articles, whose titles are the resolved titles of the selected posts,
    repeated wherever those repeat. *)
Theorem force_regenerates request st postData :
  forceOf request = true →
  posts_json st = Some postData →
  let chosen := JS.slice0 (resolvePosts postData) (numPostsOf request) in
  existingOf (forceOf request) st = []
  ∧ unprocessedPosts (resolvePosts postData) (existingOf (forceOf request) st)
    = resolvePosts postData
  ∧ selected request st postData = chosen
  ∧ (chosen ≠ [] →
     all_answered completion (length (requests st)) chosen →
     writable st = true →
     ∃ message newArticles st',
       GET completion clock request st
         = (mkResponse 200 (Success message ([] ++ newArticles)), st')
       ∧ articles_json st' = Stored ([] ++ newArticles)
       ∧ requests st' = requests st ++ (formatPostData <$> chosen)
       ∧ titlesOf newArticles = resolvedTitle <$> chosen).
Proof.
  intros Hforce Hposts chosen.
  assert (Hall : unprocessedPosts (resolvePosts postData) [] = resolvePosts postData).
  { unfold unprocessedPosts.
    induction (resolvePosts postData) as [|post posts IH]; [done|].
    rewrite filter_cons, decide_True by (rewrite elem_of_processedTitles; apply not_elem_of_nil).
    by rewrite IH. }
  assert (Hsel : selected request st postData = chosen)
    by (unfold selected; rewrite Hforce; simpl; by rewrite Hall).
  rewrite Hforce. simpl existingOf.
  split; [done|]. split; [done|]. split; [done|].
  intros Hne Hans Hw. rewrite GET_run, Hposts. cbv zeta.
  rewrite Hsel, bool_decide_eq_false_2 by done.
  pose proof Hans as Hnone. apply first_failure_None in Hnone.
  rewrite Hnone, Hw, Hforce. simpl existingOf.
  eexists _, _, _. split; [reflexivity|]. simpl.
  split; [done|]. split; [done|]. by apply produced_titles.
Qed.

(** C4 (amended). When [numPosts] is not negative, a request without
    [force] that processes at least one post selects the first [numPosts]
    unprocessed posts, in their loaded order, and persists the loaded
    collection, unchanged, followed by their articles in that order. *)
Theorem first_numPosts_appended request st :
  0 ≤ JS.toInteger (numPostsOf request) →
  appends_first_numPosts completion clock request st.
Proof.
  intros Hz postData message articles st' Hposts Hforce Hrun Hgrew existingArticles chosen.
  assert (Hsel : selected request st postData = chosen).
  { unfold selected, chosen, firstNumPosts. rewrite Hforce.
    destruct (numPostsOf request) as [|z]; [by rewrite slice0_NaN|].
    by rewrite slice0_nonneg. }
  rewrite GET_run, Hposts in Hrun. cbv zeta in Hrun.
  rewrite Hsel, Hforce in Hrun. fold existingArticles in Hrun.
  case_bool_decide as Hnil; [by injection Hrun as _ _ <-|].
  destruct (first_failure completion (length (requests st)) chosen) eqn:Hfail; [done|].
  destruct (writable st); [|done].
  injection Hrun as _ <- <-. split; [done|]. split; [done|].
  eexists. split; [done|]. split; [done|].
  apply produced_Forall2. by apply first_failure_None.
Qed.

(** C5 (amended). Without [force], when the first call selects every
    unprocessed post and returns a collection, the second call with the same
    request reports nothing new, returns that same collection with the
    short-circuit message as a success, calls nothing and writes nothing. *)
Theorem second_call_repeats_when_exhausted request st :
  forceOf request = false →
  (∀ postData, posts_json st = Some postData →
     selected request st postData
     = unprocessedPosts (resolvePosts postData) (existingOf false st)) →
  second_call_repeats completion clock request st.
Proof.
  intros Hforce Hexh response1 st1 response2 st2 message1 articles1 Hrun1 Hbody Hrun2.
  rewrite GET_run in Hrun1.
  destruct (posts_json st) as [postData|] eqn:Hposts;
    [|by injection Hrun1 as <- _].
  specialize (Hexh postData eq_refl). cbv zeta in Hrun1.
  rewrite Hforce in Hrun1.
  case_bool_decide as Hnil.
  { injection Hrun1 as <- <-. simpl in Hbody. injection Hbody as _ <-.
    rewrite GET_run, Hposts in Hrun2. cbv zeta in Hrun2.
    rewrite bool_decide_eq_true_2, Hforce in Hrun2 by done.
    by injection Hrun2 as <- <-. }
  destruct (first_failure completion (length (requests st)) (selected request st postData))
    eqn:Hfail; [by injection Hrun1 as <- _|].
  destruct (writable st); [|by injection Hrun1 as <- _].
  injection Hrun1 as <- <-. simpl in Hbody. injection Hbody as _ <-.
  apply first_failure_None in Hfail.
  set (allArticles := existingOf false st
                      ++ produced completion clock (length (requests st))
                           (selected request st postData)) in *.
  set (st1 := set_articles allArticles
                (logged (formatPostData <$> selected request st postData) st)) in *.
  assert (Hposts1 : posts_json st1 = Some postData) by exact Hposts.
  assert (Hexisting1 : existingOf (forceOf request) st1 = allArticles)
    by (by rewrite Hforce).
  assert (Hnone : selected request st1 postData = []).
  { unfold selected at 1. rewrite Hexisting1.
    rewrite unprocessedPosts_nil; [apply take_nil|].
    intros post Hin. unfold allArticles, titlesOf. rewrite fmap_app, elem_of_app.
    destruct (decide (resolvedTitle post ∈ titlesOf (existingOf false st))) as [|Hnot];
      [by left|right].
    rewrite (produced_titles completion clock _ _ Hfail), Hexh.
    apply list_elem_of_fmap_2, elem_of_unprocessedPosts. done. }
  change (GET completion clock request st1 = (response2, st2)) in Hrun2.
  change (response2 = mkResponse 200 (Success noNewPosts allArticles) ∧ st2 = st1).
  rewrite GET_run, Hposts1 in Hrun2. cbv zeta in Hrun2.
  rewrite Hnone, Hexisting1, bool_decide_eq_true_2 in Hrun2 by done.
  by injection Hrun2 as <- <-.
Qed.

(** C10 (amended). Whenever zero posts are selected the route answers
    [success: true] with the loaded collection and leaves the state as it
    was: no call to the service, no write.  Zero posts are selected whenever
    [numPosts] is [NaN] or zero; for a negative [numPosts = -k] only when at
    most [k] posts are unprocessed; for a positive one only when no post is
    unprocessed. *)
Theorem zero_selected_short_circuits request st postData :
  posts_json st = Some postData →
  let unprocessed :=
    unprocessedPosts (resolvePosts postData) (existingOf (forceOf request) st) in
  (selected request st postData = [] →
     GET completion clock request st
     = (mkResponse 200 (Success noNewPosts (existingOf (forceOf request) st)), st))
  ∧ (numPostsOf request = JS.NaN ∨ numPostsOf request = JS.Num 0 →
     selected request st postData = [])
  ∧ (∀ z, numPostsOf request = JS.Num z → z < 0 →
       selected request st postData = [] ↔ (length unprocessed ≤ Z.to_nat (- z))%nat)
  ∧ (∀ z, numPostsOf request = JS.Num z → 0 < z →
       selected request st postData = [] ↔ unprocessed = []).
Proof.
  intros Hposts unprocessed. split; [|split; [|split]].
  - intros Hnil. rewrite GET_run, Hposts. cbv zeta.
    by rewrite bool_decide_eq_true_2.
  - unfold selected. intros [-> | ->]; [apply slice0_NaN|].
    by rewrite slice0_nonneg.
  - intros z Hnum Hz. unfold selected. fold unprocessed.
    rewrite Hnum, slice0_neg by done. split.
    + intros H. apply (f_equal length) in H. rewrite length_take in H. simpl in H. lia.
    + intros H. replace (length unprocessed - Z.to_nat (- z))%nat with 0%nat by lia. done.
  - intros z Hnum Hz. unfold selected. fold unprocessed.
    rewrite Hnum, slice0_nonneg by lia. split.
    + intros H. apply (f_equal length) in H. rewrite length_take in H. simpl in H.
      destruct unprocessed; [done|]. simpl in H. lia.
    + intros ->. apply take_nil.
Qed.

End Claims.

(** ** Concrete runs *)

Example parseInt_examples :
  JS.parseInt "3" = JS.Num 3 ∧ JS.parseInt "  -12abc" = JS.Num (-12)
  ∧ JS.parseInt "abc" = JS.NaN ∧ JS.parseInt "0" = JS.Num 0.
Proof. by vm_compute. Qed.

Example slice_examples :
  JS.slice0 [1; 2; 3] (JS.Num 2) = [1; 2] ∧ JS.slice0 [1; 2; 3] (JS.Num 7) = [1; 2; 3]
  ∧ JS.slice0 [1; 2; 3] (JS.Num (-1)) = [1; 2] ∧ JS.slice0 [1; 2; 3] (JS.Num (-5)) = []
  ∧ JS.slice0 [1; 2; 3] JS.NaN = [].
Proof. by vm_compute. Qed.

(** C4, counterexample: with [numPosts=-1] and three unprocessed posts the
    route processes the first two, not "the first -1". *)
Lemma negative_numPosts_selects_all_but_last :
  ¬ appends_first_numPosts echo tick (plain (Some "-1"))
      (disk (PostArray [titled "A"; titled "B"; titled "C"]) Absent).
Proof.
  intros H.
  edestruct H as (Hsel & _); [reflexivity|reflexivity|reflexivity| |].
  - by vm_compute.
  - vm_compute in Hsel. discriminate Hsel.
Qed.

(** C5, counterexample: two posts and [numPosts=1]; the second call
    generates the second post's article instead of reporting nothing new. *)
Lemma second_call_generates_the_next_post :
  ¬ second_call_repeats echo tick (plain (Some "1"))
      (disk (PostArray [titled "A"; titled "B"]) Absent).
Proof.
  intros H.
  set (st := disk (PostArray [titled "A"; titled "B"]) Absent) in *.
  set (first := GET echo tick (plain (Some "1")) st).
  set (second := GET echo tick (plain (Some "1")) first.2).
  assert (∃ message articles, body first.1 = Success message articles)
    as (message & articles & Hbody) by (vm_compute; eauto).
  destruct (H first.1 first.2 second.1 second.2 message articles
              (surjective_pairing _) Hbody (surjective_pairing _)) as [Hresponse _].
  vm_compute in Hresponse. discriminate Hresponse.
Qed.

(** C10, counterexample: [numPosts=-1] over two unprocessed posts selects
    one of them; the service is called and the file is written. *)
Lemma negative_numPosts_still_generates :
  ¬ returns_without_generating echo tick (plain (Some "-1"))
      (disk (PostArray [titled "A"; titled "B"]) Absent).
Proof.
  intros H.
  assert (Hneg : ∃ z, numPostsOf (plain (Some "-1")) = JS.Num z ∧ z ≤ 0)
    by (exists (-1); by vm_compute).
  specialize (H _ eq_refl (or_intror (or_intror Hneg))).
  vm_compute in H. discriminate H.
Qed.

(** *** Runs that meet the hypotheses of the theorems above *)

(** C1 at a file holding "A" and the posts "A" and "B", default [numPosts]. *)
Lemma dedup_by_title_run :
  let st := disk (PostArray [titled "A"; titled "B"]) (Stored [kept]) in
  ∃ newArticles,
    articles_json (GET echo tick (plain None) st).2 = Stored ([kept] ++ newArticles)
    ∧ entriesTitled "A" ([kept] ++ newArticles) = entriesTitled "A" [kept].
Proof.
  intros st.
  destruct (dedup_by_title echo tick (plain None) st [kept] "A")
    as (newArticles & processed & Hfile & Hcount & _).
  - reflexivity.
  - reflexivity.
  - unfold titlesOf. simpl. left.
  - exists newArticles. split; assumption.
Defined.

(** C2 at the same file and posts, with [force=true]. *)
Lemma force_regenerates_run :
  let st := disk (PostArray [titled "A"; titled "B"]) (Stored [kept]) in
  ∃ message newArticles st',
    GET echo tick (forced None) st = (mkResponse 200 (Success message newArticles), st')
    ∧ articles_json st' = Stored newArticles
    ∧ titlesOf newArticles = ["A"; "B"].
Proof.
  intros st.
  destruct (force_regenerates echo tick (forced None) st (PostArray [titled "A"; titled "B"]))
    as (_ & _ & _ & Hrun); [reflexivity|reflexivity|].
  destruct Hrun as (message & newArticles & st' & Hrun & Hfile & _ & Htitles).
  - by vm_compute.
  - intros i post _. unfold echo. eauto.
  - reflexivity.
  - exists message, newArticles, st'. repeat split; assumption.
Defined.

(** C3 with a service whose first call fails. *)
Lemma generation_failure_aborts_run :
  let st := disk (PostArray [titled "A"; titled "B"; titled "C"]) (Stored [kept]) in
  (GET (failing_at 0) tick (plain None) st).1
  = mkResponse 500 (Failure "Failed to generate article")
  ∧ articles_json (GET (failing_at 0) tick (plain None) st).2 = Stored [kept].
Proof.
  intros st.
  destruct (generation_failure_aborts (failing_at 0) tick (plain None) st
              (PostArray [titled "A"; titled "B"; titled "C"]) 0 (titled "B"))
    as (k & failed & _ & _ & _ & Hrun & Hfile).
  - reflexivity.
  - reflexivity.
  - reflexivity.
  - split; [by rewrite Hrun|exact Hfile].
Defined.

(** C4 (amended) with [numPosts=1]: "B" is the first unprocessed post. *)
Lemma first_numPosts_appended_run :
  let st := disk (PostArray [titled "A"; titled "B"; titled "C"]) (Stored [kept]) in
  selected (plain (Some "1")) st (PostArray [titled "A"; titled "B"; titled "C"])
  = [titled "B"]
  ∧ ∃ newArticles,
      articles_json (GET echo tick (plain (Some "1")) st).2 = Stored ([kept] ++ newArticles)
      ∧ Forall2 recorded [titled "B"] newArticles.
Proof.
  intros st.
  edestruct (first_numPosts_appended echo tick (plain (Some "1")) st)
    as (Hsel & _ & newArticles & Hfile & _ & Hrec).
  - by vm_compute.
  - reflexivity.
  - reflexivity.
  - reflexivity.
  - by vm_compute.
  - split; [exact Hsel|]. exists newArticles. split; [exact Hfile|exact Hrec].
Defined.

(** C5 (amended) on the one-post input "Hello", called twice. *)
Lemma second_call_repeats_run :
  let st := disk (OnePost (titled "Hello")) Absent in
  let first := GET echo tick (plain None) st in
  let second := GET echo tick (plain None) first.2 in
  titlesOf (if body first.1 is Success _ articles then articles else []) = ["Hello"]
  ∧ second.1
    = mkResponse 200
        (Success noNewPosts (if body first.1 is Success _ articles then articles else []))
  ∧ second.2 = first.2.
Proof.
  intros st first second.
  assert (∃ message articles, body first.1 = Success message articles)
    as (message & articles & Hbody) by (vm_compute; eauto).
  destruct (second_call_repeats_when_exhausted echo tick (plain None) st)
    with (response1 := first.1) (st1 := first.2) (response2 := second.1) (st2 := second.2)
         (message1 := message) (articles1 := articles) as [Hresponse Hstate].
  - reflexivity.
  - intros postData [= <-]. reflexivity.
  - apply surjective_pairing.
  - exact Hbody.
  - apply surjective_pairing.
  - split; [reflexivity|]. split; [|exact Hstate].
    rewrite Hresponse, Hbody. reflexivity.
Defined.

(** C8 on a post with neither title nor author. *)
Lemma missing_field_defaults_run :
  let st := disk (PostArray [untitled]) Absent in
  ∃ message article,
    (GET echo tick (plain None) st).1 = mkResponse 200 (Success message [article])
    ∧ GeneratedArticle.originalTitle article = "Untitled Post"
    ∧ GeneratedArticle.originalAuthor article = "Unknown Author".
Proof.
  intros st.
  edestruct (missing_field_defaults echo tick (plain None) st (PostArray [untitled]))
    as [(newArticles & Harticles & Hrec & _) _].
  - reflexivity.
  - reflexivity.
  - change (selected (plain None) st (PostArray [untitled])) with [untitled] in Hrec.
    apply Forall2_cons_inv_l in Hrec as (article & rest & (_ & _ & Ht & Ha) & Hrest & ->).
    exists (generatedMessage 1 1), article.
    split; [|split; [by apply Ht|by apply Ha]].
    apply Forall2_nil_inv_l in Hrest as ->.
    simpl in Harticles. rewrite <- Harticles. reflexivity.
Defined.

(** C9 on two posts without a title and [numPosts=2]. *)
Lemma same_title_twice_run :
  let st := disk (PostArray [untitled; untitled]) Absent in
  ∃ article1 article2 more,
    articles_json (GET echo tick (plain (Some "2")) st).2
    = Stored (article1 :: article2 :: more)
    ∧ GeneratedArticle.originalTitle article1 = "Untitled Post"
    ∧ GeneratedArticle.originalTitle article2 = "Untitled Post".
Proof.
  intros st.
  destruct (same_title_twice_in_one_request echo tick (plain (Some "2")) st
              (PostArray [untitled; untitled]) untitled untitled [] 2)
    as (message & article1 & article2 & more & Hrun & Hsel & Ht1 & Ht2).
  - reflexivity.
  - reflexivity.
  - reflexivity.
  - reflexivity.
  - apply not_elem_of_nil.
  - reflexivity.
  - lia.
  - intros n postData. unfold echo. eauto.
  - reflexivity.
  - exists article1, article2, more. rewrite Hrun.
    split; [reflexivity|]. split; [exact Ht1|exact Ht2].
Defined.

(** C10 (amended) with a [numPosts] that is not a number. *)
Lemma zero_selected_short_circuits_run :
  let st := disk (PostArray [titled "A"; titled "B"]) (Stored [kept]) in
  GET echo tick (plain (Some "abc")) st
  = (mkResponse 200 (Success noNewPosts [kept]), st).
Proof.
  intros st.
  destruct (zero_selected_short_circuits echo tick (plain (Some "abc")) st
              (PostArray [titled "A"; titled "B"]))
    as (Hzero & Hnan & _); [reflexivity|].
  apply Hzero, Hnan. left. reflexivity.
Defined.


(** With [force], a file holding an entry titled "A" and an input of two
    posts titled "A": the old entry is not kept, and the two new entries
    share the title. *)
Example force_run_with_repeated_title :
  let st := disk (PostArray [titled "A"; titled "A"]) (Stored [kept]) in
  ∃ article1 article2,
    articles_json (GET echo tick (forced None) st).2 = Stored [article1; article2]
    ∧ GeneratedArticle.originalTitle article1 = "A"
    ∧ GeneratedArticle.originalTitle article2 = "A"
    ∧ kept ∉ [article1; article2].
Proof.
  eexists _, _. split; [by vm_compute|]. split; [done|]. split; [done|].
  rewrite !not_elem_of_cons. repeat split; [done|done|apply not_elem_of_nil].
Qed.

(** The end-to-end run of the specification: one post titled "Hello", no
    output file, the default [numPosts]; then the same request again. *)
Example hello_twice :
  let st := disk (OnePost (titled "Hello")) Absent in
  let first := GET echo tick (plain None) st in
  let second := GET echo tick (plain None) first.2 in
  titlesOf (if articles_json first.2 is Stored articles then articles else []) = ["Hello"]
  ∧ articles_json second.2 = articles_json first.2
  ∧ (if body second.1 is Success message _ then message else "") = noNewPosts.
Proof. by vm_compute. Qed.

(** The formatter on a small post. *)
Example formatPostData_small :
  formatPostData
    (Post.Build (Some "T") None (Some "b")
       (Some [Comment.Build (Some "c1")
                (Some [Reply.Build (Some "r1") None; Reply.Build None None;
                       Reply.Build (Some "r3") None]);
              Comment.Build None None]))
  = "# T" +:+ nl +:+ nl +:+ "**Posted by **" +:+ nl +:+ nl +:+ "b" +:+ nl +:+ nl
    +:+ "## Top Comments" +:+ nl +:+ nl
    +:+ "**Comment by user**:" +:+ nl +:+ "c1" +:+ nl +:+ nl
    +:+ "> Reply: r1" +:+ nl +:+ nl
    +:+ "> Reply: " +:+ nl +:+ nl
    +:+ "**Comment by unknown**:" +:+ nl +:+ nl +:+ nl.
Proof. by vm_compute. Qed.

(** ** More on the trigger route: failures, bounds and what is kept *)

Lemma ArticlesRoute_run st :
  ArticlesRoute.GET st =
    match articles_json st with
    | Absent => (ArticlesRoute.mkResponse 404 (ArticlesRoute.Listing []), st)
    | Unreadable =>
        (ArticlesRoute.mkResponse 500 (ArticlesRoute.Error "Unexpected token in JSON"), st)
    | Stored articles => (ArticlesRoute.mkResponse 200 (ArticlesRoute.Listing articles), st)
    end.
Proof. destruct st as [? [| |articles] ? ?]; reflexivity. Qed.

(** The cases of [GET_run], for a hypothesis on the response. *)
Ltac run_cases completion clock request st postData Hposts Hnil Hfail Hw :=
  rewrite (GET_run completion clock request st) in *;
  destruct (posts_json st) as [postData|] eqn:Hposts;
  [cbv zeta in *; case_bool_decide as Hnil;
   [|destruct (first_failure completion (length (requests st)) (selected request st postData))
       eqn:Hfail;
     [|destruct (writable st) eqn:Hw]]|].

Section MoreOnTheRoute.

Variable completion : nat → string → option string.
Variable clock : nat → string.

Lemma selected_length_le request st postData :
  0 ≤ JS.toInteger (numPostsOf request) →
  (length (selected request st postData) ≤ Z.to_nat (JS.toInteger (numPostsOf request)))%nat.
Proof.
  intros Hz. unfold selected.
  destruct (numPostsOf request) as [|z]; [by rewrite slice0_NaN|].
  rewrite slice0_nonneg, length_take by done. simpl. lia.
Qed.

Lemma selected_length_posts request st postData :
  (length (selected request st postData) ≤ length (resolvePosts postData))%nat.
Proof.
  unfold selected, JS.slice0, unprocessedPosts. rewrite length_take.
  etrans; [apply Nat.le_min_r|]. apply length_filter.
Qed.

(** X1. When every call is answered but the file cannot be written, the
    route answers 500 with ["Failed to write articles file"]: every selected
    post went to the service, and the articles file is what it was. *)
Theorem write_failure_loses_the_batch request st postData :
  posts_json st = Some postData →
  selected request st postData ≠ [] →
  all_answered completion (length (requests st)) (selected request st postData) →
  writable st = false →
  GET completion clock request st
  = (mkResponse 500 (Failure "Failed to write articles file"),
     logged (formatPostData <$> selected request st postData) st).
Proof.
  intros Hposts Hne Hans Hw. rewrite GET_run, Hposts. cbv zeta.
  rewrite bool_decide_eq_false_2 by done.
  apply first_failure_None in Hans. by rewrite Hans, Hw.
Qed.

(** X2. Without [force] no request removes, reorders or rewrites an entry:
    the collection read from the file before is a prefix of the collection
    read from it after, whatever the outcome. *)
Theorem existing_entries_stay request st :
  forceOf request = false →
  existingOf false st `prefix_of` existingOf false (GET completion clock request st).2.
Proof.
  intros Hforce.
  run_cases completion clock request st postData Hposts Hnil Hfail Hw; try done.
  simpl. rewrite Hforce. by apply prefix_app_r.
Qed.

(** X3. When [numPosts] is not negative, one request sends at most
    [numPosts] posts to the service, and never more than were loaded; the
    log of earlier calls is kept. *)
Theorem calls_bounded_by_numPosts request st :
  0 ≤ JS.toInteger (numPostsOf request) →
  ∃ sent,
    requests (GET completion clock request st).2 = requests st ++ sent
    ∧ (length sent ≤ Z.to_nat (JS.toInteger (numPostsOf request)))%nat
    ∧ (∀ postData, posts_json st = Some postData →
         (length sent ≤ length (resolvePosts postData))%nat).
Proof.
  intros Hz.
  run_cases completion clock request st postData Hposts Hnil Hfail Hw;
    try (exists []; rewrite app_nil_r; simpl; split; [done|split; [lia|intros; lia]]).
  - eexists. split; [reflexivity|].
    rewrite length_take, length_fmap.
    pose proof (selected_length_le request st postData Hz).
    pose proof (selected_length_posts request st postData).
    split; [lia|]. intros ? [= <-]. lia.
  - eexists. split; [reflexivity|]. rewrite length_fmap.
    split; [by apply selected_length_le|]. intros ? [= <-].
    apply selected_length_posts.
  - eexists. split; [reflexivity|]. rewrite length_fmap.
    split; [by apply selected_length_le|]. intros ? [= <-].
    apply selected_length_posts.
Qed.

(** X4. Without [force], a request that generated something leaves
    strictly fewer unprocessed posts for the next one. *)
Theorem fewer_unprocessed_afterwards request st postData message articles :
  forceOf request = false →
  posts_json st = Some postData →
  selected request st postData ≠ [] →
  body (GET completion clock request st).1 = Success message articles →
  (length (unprocessedPosts (resolvePosts postData)
             (existingOf false (GET completion clock request st).2))
   < length (unprocessedPosts (resolvePosts postData) (existingOf false st)))%nat.
Proof.
  intros Hforce Hposts Hne Hbody. rewrite GET_run, Hposts in *. cbv zeta in *.
  rewrite bool_decide_eq_false_2 in * by done.
  destruct (first_failure completion (length (requests st)) (selected request st postData))
    eqn:Hfail; [done|].
  destruct (writable st); [|done].
  apply first_failure_None in Hfail. simpl. rewrite Hforce.
  set (existing := existingOf false st).
  set (new := produced completion clock (length (requests st)) (selected request st postData)).
  assert (Hnew : titlesOf new = resolvedTitle <$> selected request st postData)
    by (by apply produced_titles).
  assert (Hfilter : unprocessedPosts (resolvePosts postData) (existing ++ new)
                    = filter (λ post, resolvedTitle post ∉ titlesOf new)
                        (unprocessedPosts (resolvePosts postData) existing)).
  { unfold unprocessedPosts. rewrite list_filter_filter. apply list_filter_iff.
    intros post. rewrite !elem_of_processedTitles. unfold titlesOf.
    rewrite fmap_app, elem_of_app. tauto. }
  rewrite Hfilter.
  destruct (selected request st postData) as [|post rest] eqn:Hsel; [done|].
  apply (length_filter_lt _ _ post).
  - assert (post ∈ selected request st postData) as Hin by (rewrite Hsel; left).
    unfold selected in Hin. rewrite Hforce in Hin. by eapply slice0_subseteq.
  - intros Hnot. apply Hnot. rewrite Hnew, fmap_cons. left.
Qed.

(** X5. No failing request writes: after a failure response the articles
    file, the posts file and hence the selection of a retry are what they
    were before. *)
Theorem failure_changes_no_file request st error :
  body (GET completion clock request st).1 = Failure error →
  let st' := (GET completion clock request st).2 in
  articles_json st' = articles_json st
  ∧ posts_json st' = posts_json st
  ∧ ∀ postData, selected request st' postData = selected request st postData.
Proof.
  intros Hbody.
  run_cases completion clock request st postData Hposts Hnil Hfail Hw; done.
Qed.

(** X6. An unreadable articles file makes the list route answer 500,
    but the trigger route takes it for empty: a request that generates
    something replaces it with the new articles alone, after which the list
    route answers 200 with them. *)
Theorem unreadable_articles_file_is_replaced request st postData :
  articles_json st = Unreadable →
  posts_json st = Some postData →
  selected request st postData ≠ [] →
  all_answered completion (length (requests st)) (selected request st postData) →
  writable st = true →
  let st' := (GET completion clock request st).2 in
  ArticlesRoute.status (ArticlesRoute.GET st).1 = 500%nat
  ∧ ∃ newArticles,
      articles_json st' = Stored newArticles
      ∧ titlesOf newArticles = resolvedTitle <$> selected request st postData
      ∧ ArticlesRoute.GET st'
        = (ArticlesRoute.mkResponse 200 (ArticlesRoute.Listing newArticles), st').
Proof.
  intros Hfile Hposts Hne Hans Hw st'. split; [by rewrite ArticlesRoute_run, Hfile|].
  subst st'. rewrite GET_run, Hposts. cbv zeta.
  rewrite bool_decide_eq_false_2 by done.
  pose proof Hans as Hnone. apply first_failure_None in Hnone. rewrite Hnone, Hw.
  assert (existingOf (forceOf request) st = []) as ->
    by (unfold existingOf; rewrite Hfile; by destruct (forceOf request)).
  eexists. split; [reflexivity|]. split; [by apply produced_titles|].
  by rewrite ArticlesRoute_run.
Qed.

(** X7. After a request that generated something, the list route answers
    200 with exactly the collection that request returned. *)
Theorem list_route_after_generation request st postData message articles :
  posts_json st = Some postData →
  selected request st postData ≠ [] →
  body (GET completion clock request st).1 = Success message articles →
  let st' := (GET completion clock request st).2 in
  ArticlesRoute.GET st' = (ArticlesRoute.mkResponse 200 (ArticlesRoute.Listing articles), st').
Proof.
  intros Hposts Hne Hbody st'. subst st'. rewrite GET_run, Hposts in *. cbv zeta in *.
  rewrite bool_decide_eq_false_2 in * by done.
  destruct (first_failure completion (length (requests st)) (selected request st postData));
    [done|].
  destruct (writable st); [|done].
  simpl in Hbody. injection Hbody as _ <-. by rewrite ArticlesRoute_run.
Qed.

End MoreOnTheRoute.

(** ** The page: the title of an article *)

Lemma append_cons (c : ascii) (r x : string) : String c r +:+ x = String c (r +:+ x).
Proof. reflexivity. Qed.

Lemma restOfLine_app (line after : string) :
  singleLine line = true → atLineEnd after = true →
  ArticleGenerator.restOfLine (line +:+ after) = (line, after).
Proof.
  intros Hline Hend. induction line as [|c line IH].
  - destruct after as [|c after]; [done|]. simpl in Hend.
    change ("" +:+ String c after) with (String c after). simpl. by rewrite Hend.
  - simpl in Hline. apply andb_true_iff in Hline as [Hc Hline].
    rewrite append_cons. simpl. apply negb_true_iff in Hc. rewrite Hc.
    by rewrite IH.
Qed.

Lemma restOfLine_inv (s line after : string) :
  ArticleGenerator.restOfLine s = (line, after) →
  s = line +:+ after ∧ singleLine line = true ∧ atLineEnd after = true.
Proof.
  revert line after. induction s as [|c s IH]; intros line after; simpl.
  - by intros [= <- <-].
  - destruct (JSString.isLineTerminator c) eqn:Hc.
    + intros [= <- <-]. simpl. by rewrite Hc.
    + destruct (ArticleGenerator.restOfLine s) as [line0 after0].
      intros [= <- <-]. destruct (IH _ _ eq_refl) as (-> & Hline & Hend).
      rewrite append_cons. simpl. by rewrite Hc, Hline.
Qed.

Lemma headingAt_inv (s captured after : string) :
  ArticleGenerator.headingAt s = Some (captured, after) →
  s = "# " +:+ captured +:+ after ∧ headingBetween true "" captured after.
Proof.
  unfold ArticleGenerator.headingAt, headingBetween. intros H.
  destruct s as [|c1 [|c2 s]]; try done.
  - by destruct c1 as [[] [] [] [] [] [] [] []].
  - destruct (ArticleGenerator.restOfLine s) as [line rest] eqn:Hrest.
    apply restOfLine_inv in Hrest as (-> & Hline & Hend).
    destruct c1 as [[] [] [] [] [] [] [] []]; try done.
    destruct c2 as [[] [] [] [] [] [] [] []]; try done.
    destruct line as [|c line]; [done|]. by injection H as <- <-.
Qed.

Lemma headingAt_app (captured after : string) :
  headingBetween true "" captured after →
  ArticleGenerator.headingAt ("# " +:+ captured +:+ after) = Some (captured, after).
Proof.
  intros (_ & Hne & Hline & Hend).
  change ("# " +:+ captured +:+ after) with (String "#" (String " " (captured +:+ after))).
  unfold ArticleGenerator.headingAt. rewrite restOfLine_app by done.
  by destruct captured.
Qed.

Lemma firstHeading_inv (s : string) : ∀ start before captured after,
  ArticleGenerator.firstHeading start s = Some (before, captured, after) →
  s = before +:+ "# " +:+ captured +:+ after ∧ headingBetween start before captured after.
Proof.
  induction s as [|c s IH]; intros start before captured after.
  - simpl. destruct start; by try done.
  - intros H.
    assert (Hstep :
      (start = true ∧ before = ""
       ∧ ArticleGenerator.headingAt (String c s) = Some (captured, after))
      ∨ ∃ before0, before = String c before0
          ∧ ArticleGenerator.firstHeading (JSString.isLineTerminator c) s
            = Some (before0, captured, after)).
    { cbn [ArticleGenerator.firstHeading] in H.
      destruct start; [destruct (ArticleGenerator.headingAt (String c s)) as [[t a]|] eqn:Hat|].
      - injection H as <- <- <-. by left.
      - right. apply fmap_Some in H as ([[b0 t0] a0] & H0 & [= -> -> ->]). eauto.
      - right. apply fmap_Some in H as ([[b0 t0] a0] & H0 & [= -> -> ->]). eauto. }
    destruct Hstep as [(-> & -> & Hat)|(before0 & -> & Hrec)].
    + apply headingAt_inv in Hat as [Heq Hh]. done.
    + apply IH in Hrec as [-> (Hs & Hne & Hline & Hend)].
      split; [by rewrite append_cons|]. done.
Qed.

Lemma firstHeading_leftmost (before' captured' after' : string) : ∀ start,
  headingBetween start before' captured' after' →
  ∃ before captured after,
    ArticleGenerator.firstHeading start (before' +:+ "# " +:+ captured' +:+ after')
    = Some (before, captured, after)
    ∧ (String.length before ≤ String.length before')%nat.
Proof.
  induction before' as [|c before' IH]; intros start (Hs & Hne & Hline & Hend).
  - simpl in Hs. subst start.
    change ("" +:+ "# " +:+ captured' +:+ after') with ("# " +:+ captured' +:+ after').
    exists "", captured', after'. split; [|done].
    assert (Hat := headingAt_app captured' after' (conj eq_refl (conj Hne (conj Hline Hend)))).
    change ("# " +:+ captured' +:+ after')
      with (String "#" (String " " (captured' +:+ after'))) in *.
    cbn [ArticleGenerator.firstHeading]. by rewrite Hat.
  - rewrite append_cons. simpl in Hs.
    destruct (IH (JSString.isLineTerminator c)) as (b0 & t0 & a0 & Hrec & Hle); [done|].
    cbn [ArticleGenerator.firstHeading].
    destruct (if start then ArticleGenerator.headingAt
                (String c (before' +:+ "# " +:+ captured' +:+ after')) else None)
      as [[t a]|].
    + exists "", t, a. split; [done|]. simpl. lia.
    + rewrite Hrec. exists (String c b0), t0, a0. split; [done|]. simpl. lia.
Qed.

(** X8. The first heading wins: if the text shows a level-one heading line
    anywhere, the title is the text of such a line that starts there or
    earlier, never the default taken for want of a heading, and the content
    is the text without that line, trimmed. *)
Theorem extractTitle_first_heading (before' captured' after' : string) :
  headingBetween true before' captured' after' →
  let result :=
    ArticleGenerator.extractTitle (before' +:+ "# " +:+ captured' +:+ after') in
  ∃ before after,
    before' +:+ "# " +:+ captured' +:+ after'
    = before +:+ "# " +:+ ArticleGenerator.title result +:+ after
    ∧ headingBetween true before (ArticleGenerator.title result) after
    ∧ (String.length before ≤ String.length before')%nat
    ∧ ArticleGenerator.content result = JSString.trim (before +:+ after).
Proof.
  intros Hh.
  destruct (firstHeading_leftmost _ _ _ _ Hh) as (before & captured & after & Hfirst & Hle).
  unfold ArticleGenerator.extractTitle. rewrite Hfirst.
  apply firstHeading_inv in Hfirst as [Heq Hh0].
  destruct captured as [|c captured]; [by destruct Hh0 as (_ & ? & _)|].
  exists before, after. done.
Qed.

(** X9. An article that opens with a level-one heading line gives that
    line's text as the title and the rest, trimmed, as the content. *)
Theorem extractTitle_of_titled (captured after : string) :
  captured ≠ "" → singleLine captured = true → atLineEnd after = true →
  ArticleGenerator.extractTitle ("# " +:+ captured +:+ after)
  = ArticleGenerator.mkTitleContent captured (JSString.trim after).
Proof.
  intros Hne Hline Hend.
  assert (Hat := headingAt_app captured after (conj eq_refl (conj Hne (conj Hline Hend)))).
  unfold ArticleGenerator.extractTitle.
  change ("# " +:+ captured +:+ after) with (String "#" (String " " (captured +:+ after))) in *.
  cbn [ArticleGenerator.firstHeading]. rewrite Hat.
  by destruct captured.
Qed.

(** ** Titles stay distinct when the input's titles are *)

Lemma selected_sublist request st postData :
  selected request st postData `sublist_of` resolvePosts postData.
Proof.
  unfold selected, JS.slice0, unprocessedPosts.
  etrans; [apply sublist_take|apply sublist_filter].
Qed.

(** X10. Without [force], when the titles in the file are pairwise
    distinct and so are the resolved titles of the loaded posts, they are
    still pairwise distinct in the file after the request, whatever its
    outcome. *)
Theorem titles_stay_distinct completion clock request st :
  forceOf request = false →
  NoDup (titlesOf (existingOf false st)) →
  (∀ postData, posts_json st = Some postData →
     NoDup (resolvedTitle <$> resolvePosts postData)) →
  NoDup (titlesOf (existingOf false (GET completion clock request st).2)).
Proof.
  intros Hforce Hold Hposts'.
  run_cases completion clock request st postData Hposts Hnil Hfail Hw; try done.
  simpl. rewrite Hforce. apply first_failure_None in Hfail.
  unfold titlesOf in *. rewrite fmap_app, (produced_titles _ _ _ _ Hfail).
  apply NoDup_app. split; [done|]. split.
  - intros X HX Hin. apply list_elem_of_fmap in Hin as (post & -> & Hsel).
    apply elem_of_selected in Hsel as [Hnot _]. by rewrite Hforce in Hnot.
  - eapply sublist_NoDup; [by apply Hposts'|].
    apply fmap_sublist, selected_sublist.
Qed.

(** ** Runs that meet the hypotheses of the further theorems *)

(** X1 with a file that cannot be written. *)
Lemma write_failure_loses_the_batch_run :
  let st := mkState (Some (PostArray [titled "B"])) (Stored [kept]) false [] in
  (GET echo tick (plain None) st).1
  = mkResponse 500 (Failure "Failed to write articles file")
  ∧ articles_json (GET echo tick (plain None) st).2 = Stored [kept]
  ∧ requests (GET echo tick (plain None) st).2 = [formatPostData (titled "B")].
Proof.
  intros st.
  rewrite (write_failure_loses_the_batch echo tick (plain None) st (PostArray [titled "B"])).
  - repeat split; reflexivity.
  - reflexivity.
  - by vm_compute.
  - intros i post _. unfold echo. eauto.
  - reflexivity.
Defined.

(** X2 on a file holding one entry. *)
Lemma existing_entries_stay_run :
  let st := disk (PostArray [titled "A"; titled "B"]) (Stored [kept]) in
  [kept] `prefix_of` existingOf false (GET echo tick (plain None) st).2.
Proof. intros st. apply (existing_entries_stay echo tick (plain None) st). reflexivity. Defined.

(** X3 with [numPosts=2] over three posts. *)
Lemma calls_bounded_by_numPosts_run :
  let st := disk (PostArray [titled "A"; titled "B"; titled "C"]) Absent in
  ∃ sent,
    requests (GET echo tick (plain (Some "2")) st).2 = [] ++ sent
    ∧ (length sent ≤ 2)%nat.
Proof.
  intros st.
  destruct (calls_bounded_by_numPosts echo tick (plain (Some "2")) st)
    as (sent & Hrequests & Hlength & _); [by vm_compute|].
  exists sent. split; [exact Hrequests|exact Hlength].
Defined.

(** X4 with [numPosts=1] over two unprocessed posts. *)
Lemma fewer_unprocessed_afterwards_run :
  let posts := [titled "A"; titled "B"; titled "C"] in
  let st := disk (PostArray posts) (Stored [kept]) in
  (length (unprocessedPosts posts
             (existingOf false (GET echo tick (plain (Some "1")) st).2))
   < length (unprocessedPosts posts [kept]))%nat.
Proof.
  intros posts st.
  eapply (fewer_unprocessed_afterwards echo tick (plain (Some "1")) st (PostArray posts)).
  - reflexivity.
  - reflexivity.
  - by vm_compute.
  - reflexivity.
Defined.

(** X5 with a service whose first call fails. *)
Lemma failure_changes_no_file_run :
  let postData := PostArray [titled "A"; titled "B"; titled "C"] in
  let st := disk postData (Stored [kept]) in
  let st' := (GET (failing_at 0) tick (plain None) st).2 in
  articles_json st' = Stored [kept]
  ∧ selected (plain None) st' postData = selected (plain None) st postData.
Proof.
  intros postData st st'.
  destruct (failure_changes_no_file (failing_at 0) tick (plain None) st
              "Failed to generate article" eq_refl) as (Hfile & _ & Hselected).
  split; [exact Hfile|apply Hselected].
Defined.

(** X6 on an articles file that cannot be parsed. *)
Lemma unreadable_articles_file_is_replaced_run :
  let st := disk (PostArray [titled "A"]) Unreadable in
  let st' := (GET echo tick (plain None) st).2 in
  ArticlesRoute.status (ArticlesRoute.GET st).1 = 500%nat
  ∧ ∃ newArticles,
      ArticlesRoute.GET st'
      = (ArticlesRoute.mkResponse 200 (ArticlesRoute.Listing newArticles), st')
      ∧ titlesOf newArticles = ["A"].
Proof.
  intros st st'.
  destruct (unreadable_articles_file_is_replaced echo tick (plain None) st
              (PostArray [titled "A"]))
    as (Hbefore & newArticles & _ & Htitles & Hafter).
  - reflexivity.
  - reflexivity.
  - by vm_compute.
  - intros i post _. unfold echo. eauto.
  - reflexivity.
  - split; [exact Hbefore|]. exists newArticles. split; [exact Hafter|exact Htitles].
Defined.

(** X7 on a forced request over two posts. *)
Lemma list_route_after_generation_run :
  let st := disk (PostArray [titled "A"; titled "B"]) (Stored [kept]) in
  let st' := (GET echo tick (forced None) st).2 in
  ∃ articles,
    ArticlesRoute.GET st' = (ArticlesRoute.mkResponse 200 (ArticlesRoute.Listing articles), st')
    ∧ titlesOf articles = ["A"; "B"].
Proof.
  intros st st'. eexists. split.
  - eapply (list_route_after_generation echo tick (forced None) st
              (PostArray [titled "A"; titled "B"])).
    + reflexivity.
    + by vm_compute.
    + reflexivity.
  - reflexivity.
Defined.

(** X8 on a text whose second line is the heading. *)
Lemma extractTitle_first_heading_run :
  let markdown := "intro" +:+ nl +:+ "# T" +:+ nl +:+ "body" in
  ∃ before after,
    markdown
    = before +:+ "# " +:+ ArticleGenerator.title (ArticleGenerator.extractTitle markdown)
      +:+ after
    ∧ (String.length before ≤ 6)%nat.
Proof.
  intros markdown.
  destruct (extractTitle_first_heading ("intro" +:+ nl) "T" (nl +:+ "body"))
    as (before & after & Heq & _ & Hle & _).
  - repeat split; [|reflexivity..]. discriminate.
  - exists before, after. split; [exact Heq|exact Hle].
Defined.

(** X9 on an article of the expected shape. *)
Lemma extractTitle_of_titled_run :
  ArticleGenerator.extractTitle ("# Hello" +:+ nl +:+ nl +:+ "Body" +:+ nl)
  = ArticleGenerator.mkTitleContent "Hello" "Body".
Proof.
  apply (extractTitle_of_titled "Hello" (nl +:+ nl +:+ "Body" +:+ nl));
    [discriminate|reflexivity|reflexivity].
Defined.

(** X10 on two posts with different titles. *)
Lemma titles_stay_distinct_run :
  let st := disk (PostArray [titled "A"; titled "B"]) (Stored [kept]) in
  NoDup (titlesOf (existingOf false (GET echo tick (plain None) st).2)).
Proof.
  intros st. apply (titles_stay_distinct echo tick (plain None) st).
  - reflexivity.
  - apply (NoDup_cons_2 "A" []); [apply not_elem_of_nil|apply NoDup_nil_2].
  - intros postData [= <-]. apply (bool_decide_unpack _). by vm_compute.
Defined.
